(** * scrape-extract-jobs: the harvest-and-consolidate control logic

    A shallow embedding of the parts of the repository that decide the
    behaviour of the pagination URLs ([src/utils.py]), the window
    extraction and the batch driver ([src/html_extractor/extractor.py])
    and the consolidation stage ([src/post_extraction/post.py]), with the
    tables of [src/constants.py].

    Conventions.
    - Python text is a sequence of characters.  The operations on text
      ([in], [split], [replace], slicing) are defined once over lists of
      any character type with decidable equality; program data uses
      [string], whose characters are [ascii].  [lower] maps [A]-[Z] to
      [a]-[z] and leaves every other character alone.
    - A Python dict with string keys is a [gmap string _].
    - Code that can raise returns in an error type; the batch driver,
      which also writes files and calls the model, runs in a small
      state-and-exception monad over an explicit [world]. *)

From Stdlib Require Import ZArith Ascii String DecimalString.
From stdpp Require Import gmap strings list sorting.

Local Open Scope string_scope.
Local Open Scope list_scope.

(** ** Python text operations, over any character type *)

Section PyText.
Context {A : Type} `{EqDecision A}.

(** [s.startswith(p)] *)
Fixpoint startswith (p s : list A) : bool :=
  match p, s with
  | [], _ => true
  | _ :: _, [] => false
  | a :: p', b :: s' => if decide (a = b) then startswith p' s' else false
  end.

(** [sub in s] *)
Fixpoint contains (sub s : list A) : bool :=
  startswith sub s ||
  match s with
  | [] => false
  | _ :: s' => contains sub s'
  end.

(** The left-to-right scan behind [str.split] and [str.replace] for a
    non-empty separator: a match at the current position closes the
    current piece ([cur], kept reversed) and the next [length sep - 1]
    characters, which belong to the matched separator, are passed over
    ([skip]); the scan then resumes after the separator, so that the
    separators found never overlap. *)
Fixpoint split_scan (sep : list A) (skip : nat) (cur s : list A)
  : list (list A) :=
  match s with
  | [] => [reverse cur]
  | c :: s' =>
      match skip with
      | S k => split_scan sep k cur s'
      | O =>
          if startswith sep s
          then reverse cur :: split_scan sep (length sep - 1) [] s'
          else split_scan sep 0 (c :: cur) s'
      end
  end.

(** [s.split(sep)]; an empty separator raises [ValueError] ([None]). *)
Definition py_split (sep s : list A) : option (list (list A)) :=
  match sep with
  | [] => None
  | _ :: _ => Some (split_scan sep 0 [] s)
  end.

(** [new.join(pieces)] *)
Fixpoint py_join (new : list A) (pieces : list (list A)) : list A :=
  match pieces with
  | [] => []
  | [p] => p
  | p :: rest => p ++ new ++ py_join new rest
  end.

(** [s.replace(old, new)]: every non-overlapping occurrence of [old],
    found left to right, is replaced; for an empty [old], [new] is put
    before every character and at the end. *)
Definition py_replace (old new s : list A) : list A :=
  match old with
  | [] => new ++ concat (map (λ c, c :: new) s)
  | _ :: _ => py_join new (split_scan old 0 [] s)
  end.

(** [l[:-1]] *)
Definition but_last {B : Type} (l : list B) : list B :=
  take (length l - 1) l.

(** [s[lo:hi]] for [0 <= lo] and [0 <= hi] *)
Definition py_slice (lo hi : nat) (s : list A) : list A :=
  take (hi - lo) (drop lo s).

(** The loop of [find_substring]:
<<
    return_pos = []; offset = 0
    for s in split_string[:-1]:
        return_pos.append(len(s)+offset)
        offset += len(substring) + len(s)
>>
    as a left fold over the pieces, with state [(return_pos, offset)]. *)
Definition find_step (substring : list A) (st : list nat * nat) (s : list A)
  : list nat * nat :=
  let '(return_pos, offset) := st in
  (return_pos ++ [length s + offset], offset + (length substring + length s)).

(** [career_page_html_extractor.find_substring] *)
Definition find_substring (substring _string_ : list A) : option (list nat) :=
  split_string ← py_split substring _string_;
  Some (fst (foldl (find_step substring) ([], 0) (but_last split_string))).

(** The true starting offsets of [sub] in a text whose first character
    is at offset [pos]: every offset at which [sub] is a prefix of the
    rest of the text, in increasing order. *)
Fixpoint occurrences_from (sub : list A) (pos : nat) (s : list A) : list nat :=
  (if startswith sub s then [pos] else []) ++
  match s with
  | [] => []
  | _ :: s' => occurrences_from sub (S pos) s'
  end.

Definition occurrences (sub s : list A) : list nat := occurrences_from sub 0 s.

(** The offsets the scan of [split_scan] stops at, read off directly. *)
Fixpoint scan_positions (sep : list A) (skip pos : nat) (s : list A)
  : list nat :=
  match s with
  | [] => []
  | _ :: s' =>
      match skip with
      | S k => scan_positions sep k (S pos) s'
      | O =>
          if startswith sep s
          then pos :: scan_positions sep (length sep - 1) (S pos) s'
          else scan_positions sep 0 (S pos) s'
      end
  end.

End PyText.

(** ** Text operations on [string] *)

Definition chars (s : string) : list ascii := list_ascii_of_string s.
Definition str (l : list ascii) : string := string_of_list_ascii l.

(** [sub in s] *)
Definition str_in (sub s : string) : bool := contains (chars sub) (chars s).

(** [s.replace(old, new)] *)
Definition str_replace (old new s : string) : string :=
  str (py_replace (chars old) (chars new) (chars s)).

(** [s[lo:hi]] *)
Definition str_slice (lo hi : nat) (s : string) : string :=
  str (py_slice lo hi (chars s)).

Definition lower_ascii (c : ascii) : ascii :=
  let n := nat_of_ascii c in
  if (65 <=? n)%nat && (n <=? 90)%nat then ascii_of_nat (n + 32) else c.

(** [s.lower()] *)
Definition str_lower (s : string) : string := str (map lower_ascii (chars s)).

(** [str(n)] for a Python integer *)
Definition str_of_Z (z : Z) : string := NilZero.string_of_int (Z.to_int z).

(** [str(n)] for a non-negative index *)
Definition str_of_nat (n : nat) : string := NilZero.string_of_uint (Nat.to_uint n).

(** [s[:-4]] *)
Definition str_drop_last4 (s : string) : string :=
  str (take (String.length s - 4) (chars s)).

(** [l.sort()] on a list of names: Python orders strings by code point. *)
Definition str_le (a b : string) : Prop := String.leb a b = true.

Global Instance str_le_dec a b : Decision (str_le a b).
Proof. unfold str_le. apply _. Defined.

Definition sort (l : list string) : list string := merge_sort str_le l.

(** [enumerate(l)] *)
Definition enumerate {B : Type} (l : list B) : list (nat * B) :=
  imap (λ i x, (i, x)) l.

(** ** Exceptions and results *)

Inductive exn :=
| KeyError (key : string)
| ValueError
| TypeError
| AttributeError
| OSError (path : string)
| External (what : string).

Inductive result (A : Type) :=
| Return (a : A)
| Throw (e : exn).
Arguments Return {A} a.
Arguments Throw {A} e.

Global Instance result_ret : MRet result := λ A a, Return a.
Global Instance result_bind : MBind result := λ A B f m,
  match m with
  | Return a => f a
  | Throw e => Throw e
  end.

(** ** Constants of [src/constants.py] used by the extractor *)

Definition EXTRACTOR_BUFFER : Z := 1000.

Definition EXTRACTOR_CHECK : gmap string string :=
  list_to_map
    [("apple", "/en-us/details/");
     ("amazon", "/en/jobs/2949643/");
     ("adobe", "https://careers.adobe.com/us/en/job/");
     ("airbnb", "https://careers.airbnb.com/positions/");
     ("google", "jobs/results/");
     ("meta", "/jobs/");
     ("notion", "https://job-boards.greenhouse.io/notion/jobs/");
     ("lyft", "https://app.careerpuck.com/job-board/lyft/job/")].

(** [EXTRACTOR_PROMPT], the text before and after the [{}] placeholder. *)
Definition EXTRACTOR_PROMPT_before : string :=
"### Instruction:
I am providing you with an HTML. I want you to extract Job Title, Job Location, Job ID and Job Link in a JSON format. I want you to respond only with a JSON, no descriptive text. There are exactly 10 Job Title, Job Location, Job ID and Job Link that you have to extract from the provided HTML.

Again, only respond with a JSON and no desciptive text. If you do not spot job links in the HTML provided then just return an empty JSON.
Here is the HTML I want to extract Job Title, Job Location, Job ID and Job Link from,

".

Definition EXTRACTOR_PROMPT_after : string := "
".

(** ** The extractor: [src/html_extractor/extractor.py] *)

(** The folder of fetched pages, [split_folder_path]: every company
    directory with its entries in the order [os.listdir] gives them; an
    entry is an HTML file or a sub-collection directory of HTML files. *)
Inductive node :=
| File (content : string)
| Dir (children : list (string * string)).

Definition folder : Type := list (string * list (string * node)).

Fixpoint assoc {B : Type} (name : string) (l : list (string * B)) : option B :=
  match l with
  | [] => None
  | (k, v) :: l' => if decide (k = name) then Some v else assoc name l'
  end.

(** An artifact is named by company, sub-collection (empty for a flat
    company directory) and file name. *)
Definition artifact : Type := string * string * string.

(** What the extractor can change or observe outside itself: the entries
    directly under [extracted_foler_path], the fragments written below
    it, and two logs that record, oldest first, the calls of
    [call_make_predictions] and the invocations of [make_predictions]
    with the prompt they were made for. *)
Record world := {
  out_entries : gset string;
  out_files : gmap artifact string;
  processed : list artifact;
  model_calls : list (artifact * string)
}.

Inductive outcome (A : Type) :=
| Ok (a : A) (w : world)
| Raise (e : exn) (w : world).
Arguments Ok {A} a w.
Arguments Raise {A} e w.

Definition M (A : Type) : Type := world → outcome A.

Global Instance M_ret : MRet M := λ A a w, Ok a w.
Global Instance M_bind : MBind M := λ A B f m w,
  match m w with
  | Ok a w' => f a w'
  | Raise e w' => Raise e w'
  end.

Definition raise {A : Type} (e : exn) : M A := λ w, Raise e w.
Definition gets {A : Type} (f : world → A) : M A := λ w, Ok (f w) w.
Definition modify (f : world → world) : M unit := λ w, Ok () (f w).

Definition lift {A : Type} (r : result A) : M A :=
  match r with
  | Return a => mret a
  | Throw e => raise e
  end.

(** [for x in l: body(x)] *)
Fixpoint for_each {B : Type} (body : B → M unit) (l : list B) : M unit :=
  match l with
  | [] => mret ()
  | x :: l' => body x ;; for_each body l'
  end.

Definition world_of {A : Type} (o : outcome A) : world :=
  match o with
  | Ok _ w => w
  | Raise _ w => w
  end.

Definition log_processed (a : artifact) : M unit :=
  modify (λ w, {| out_entries := out_entries w; out_files := out_files w;
                  processed := processed w ++ [a];
                  model_calls := model_calls w |}).

Definition log_model_call (a : artifact) (prompt : string) : M unit :=
  modify (λ w, {| out_entries := out_entries w; out_files := out_files w;
                  processed := processed w;
                  model_calls := model_calls w ++ [(a, prompt)] |}).

(** [folder_exists_or_mk(extracted_foler_path / company / data_software)]:
    afterwards the company is an entry of the output root. *)
Definition folder_exists_or_mk (company : string) : M unit :=
  modify (λ w, {| out_entries := {[company]} ∪ out_entries w;
                  out_files := out_files w;
                  processed := processed w;
                  model_calls := model_calls w |}).

(** [u.save_response_as_txt] at
    [extracted_foler_path / company / data_software / name] *)
Definition save_response_as_txt (save_location : artifact) (response : string)
  : M unit :=
  modify (λ w, {| out_entries := out_entries w;
                  out_files := <[save_location := response]> (out_files w);
                  processed := processed w;
                  model_calls := model_calls w |}).

(** [u.read_html(split_folder_path / company / data_software / html_file)] *)
Definition read_html (split : folder) (company data_software html_file : string)
  : result string :=
  match assoc company split with
  | None => Throw (OSError company)
  | Some entries =>
      if decide (data_software = "") then
        match assoc html_file entries with
        | Some (File content) => Return content
        | _ => Throw (OSError html_file)
        end
      else
        match assoc data_software entries with
        | Some (Dir children) =>
            match assoc html_file children with
            | Some content => Return content
            | None => Throw (OSError html_file)
            end
        | _ => Throw (OSError data_software)
        end
  end.

(** [return_prompt]: [c.EXTRACTOR_PROMPT.format(html_content)] *)
Definition return_prompt (html_content : string) : string :=
  EXTRACTOR_PROMPT_before +:+ html_content +:+ EXTRACTOR_PROMPT_after.

(** [c.EXTRACTOR_CHECK[company]] *)
Definition EXTRACTOR_CHECK_item (company : string) : result string :=
  match EXTRACTOR_CHECK !! company with
  | Some anchor => Return anchor
  | None => Throw (KeyError company)
  end.

(** The window of [call_make_predictions] around offset [pos]:
    [html_content[max(0, pos-BUFFER):min(len(html_content), pos+BUFFER)]] *)
Definition window (html_content : string) (pos : nat) : string :=
  str_slice
    (Z.to_nat (Z.max 0 (Z.of_nat pos - EXTRACTOR_BUFFER)))
    (Z.to_nat (Z.min (Z.of_nat (String.length html_content))
                     (Z.of_nat pos + EXTRACTOR_BUFFER)))
    html_content.

(** What a step from [w] to [w'] may do to the logs while artifact [a]
    is processed: no call of [call_make_predictions] is logged, and the
    model is invoked for [a] only. *)
Definition quiet (a : artifact) (w w' : world) : Prop :=
  processed w' = processed w ∧
  ∃ calls, model_calls w' = model_calls w ++ calls ∧
           Forall (λ x, x.1 = a) calls.

(** The logs after the call of [call_make_predictions] on [a]. *)
Definition logs_of_call (a : artifact) (w w' : world) : Prop :=
  processed w' = processed w ++ [a] ∧
  ∃ calls, model_calls w' = model_calls w ++ calls ∧
           Forall (λ x, x.1 = a) calls.

Section Extractor.

(** The tokenizer and the model are external.  [tokenizer prompt] is
    [self.tokenizer(prompt, return_tensors="pt")]; [make_predictions k ids]
    is the result of the call of [self.make_predictions] that is made
    after [k] earlier ones, so that the model may answer the same prompt
    differently each time.  Either may raise. *)
Context {tokens : Type}.
Variable tokenizer : string → result tokens.
Variable make_predictions : nat → tokens → result string.

(** [split_folder_path] *)
Variable split_folder_path : folder.

(** The body of the loop over [enumerate(important_pos)]. *)
Definition predict_window (company data_software html_file html_content : string)
    (ix_pos : nat * nat) : M unit :=
  let '(ix, pos) := ix_pos in
  let html_content_split := window html_content pos in
  let input_prompt := return_prompt html_content_split in
  input_ids ← lift (tokenizer input_prompt);
  if (Z.of_nat (String.length input_prompt) <? 100000)%Z then
    k ← gets (λ w, length (model_calls w));
    log_model_call (company, data_software, html_file) input_prompt;;
    pred_response ← lift (make_predictions k input_ids);
    folder_exists_or_mk company;;
    save_response_as_txt
      (company, data_software,
       "extracted_" +:+ str_drop_last4 html_file +:+ "_part_"
         +:+ str_of_nat ix +:+ ".txt")
      pred_response
  else mret ().

(** [career_page_html_extractor.call_make_predictions] *)
Definition call_make_predictions (company data_software html_file : string)
  : M unit :=
  log_processed (company, data_software, html_file);;
  html_content ← lift (read_html split_folder_path company data_software html_file);
  let should_i_make_preds :=
    match EXTRACTOR_CHECK !! company with
    | Some anchor => str_in anchor html_content
    | None => true
    end in
  if should_i_make_preds then
    anchor ← lift (EXTRACTOR_CHECK_item company);
    important_pos ← lift
      (match find_substring (chars anchor) (chars html_content) with
       | Some l => Return l
       | None => Throw ValueError
       end);
    for_each (predict_window company data_software html_file html_content)
             (enumerate important_pos)
  else mret ().

(** The body of the loop over the entries of one company directory. *)
Definition produce_entry (company : string) (entry : string * node) : M unit :=
  let '(data_software, nd) := entry in
  match nd with
  | Dir children =>
      let data_software_html_paths := sort (map fst children) in
      for_each (call_make_predictions company data_software)
               data_software_html_paths
  | File _ => call_make_predictions company "" data_software
  end.

(** [career_page_html_extractor.produce_predicts].  The first statement,
    [folder_exists_or_mk(extracted_foler_path)], makes sure that the
    output root exists; its entries are [out_entries], read once before
    the loop. *)
Definition produce_predicts : M unit :=
  let company_list := sort (map fst split_folder_path) in
  company_list_extracted ← gets out_entries;
  for_each
    (λ company,
       if decide (company ∉ company_list_extracted) then
         match assoc company split_folder_path with
         | Some entries => for_each (produce_entry company) entries
         | None => raise (OSError company)
         end
       else mret ())
    company_list.

(** One call of [call_make_predictions], on an artifact given as a
    triple. *)
Definition call_artifact (a : artifact) : M unit :=
  call_make_predictions a.1.1 a.1.2 a.2.

(** The artifacts of one company directory in the order the driver
    visits them. *)
Definition entry_artifacts (company : string) (entry : string * node)
  : list artifact :=
  match entry.2 with
  | Dir children => map (λ f, (company, entry.1, f)) (sort (map fst children))
  | File _ => [(company, "", entry.1)]
  end.

Definition company_artifacts (company : string) : list artifact :=
  match assoc company split_folder_path with
  | Some entries => concat (map (entry_artifacts company) entries)
  | None => []
  end.

(** The artifacts of every company that is not an entry of the output
    root [done], in the order the driver visits them. *)
Definition worklist (done : gset string) : list artifact :=
  concat (map company_artifacts
              (filter (λ company, company ∉ done)
                      (sort (map fst split_folder_path)))).

End Extractor.

(** ** Paginated acquisition: [scrape_link_manu_wi_chromium] of [src/utils.py] *)

(** The number written after the pagination identifier for page [n]:
    [n*multiplier if multiplier > 1 else n+1] *)
Definition page_number (n : nat) (multiplier : Z) : Z :=
  if (1 <? multiplier)%Z then (Z.of_nat n * multiplier)%Z
  else (Z.of_nat n + 1)%Z.

(** [base_url.replace(f"{page_identifier}",
                      f"{page_identifier}{page_number}")] *)
Definition base_url_ext (base_url page_identifier : string) (n : nat)
    (multiplier : Z) : string :=
  str_replace page_identifier
              (page_identifier +:+ str_of_Z (page_number n multiplier))
              base_url.

(** What the loop leaves behind: the URLs handed to [page.goto], oldest
    first, and the files written by [save_html]. *)
Record browser := {
  visited : list string;
  saved : list (string * string)
}.

Section Scraper.

(** The browser is external.  [load k url] is the page content obtained
    by the navigation that is made after [k] earlier ones
    ([page.goto], the settle wait and [page.content]), or [None] when
    one of them raises. *)
Variable load : nat → string → option string.

(** One iteration of [for n in range(num_pages)], with its [try]. *)
Definition scrape_page (base_url page_identifier save_folder_path : string)
    (multiplier : Z) (b : browser) (n : nat) : browser :=
  let url := base_url_ext base_url page_identifier n multiplier in
  match load (length (visited b)) url with
  | Some html_to_save =>
      {| visited := visited b ++ [url];
         saved := saved b
                  ++ [(save_folder_path +:+ str_of_nat n +:+ ".txt", html_to_save)] |}
  | None =>
      {| visited := visited b ++ [url]; saved := saved b |}
  end.

(** [scrape_link_manu_wi_chromium] *)
Definition scrape_link_manu_wi_chromium (base_url page_identifier : string)
    (num_pages : Z) (save_folder_path : string) (multiplier : Z) : browser :=
  foldl (scrape_page base_url page_identifier save_folder_path multiplier)
        {| visited := []; saved := [] |}
        (seq 0 (Z.to_nat num_pages)).

End Scraper.

(** ** Constants of [src/constants.py] used by the consolidation *)

Definition LINK_PREPEND : gmap string string :=
  list_to_map
    [("amazon", "https://www.amazon.jobs/");
     ("apple", "https://jobs.apple.com/");
     ("google", "https://www.google.com/about/careers/applications/");
     ("meta", "https://www.metacareers.com/")].

Definition UNITED_STATES_LIST : list string :=
  ["united"; "states"; "america"; "usa"; "us"].

(** [COUNTRY_SET].  A Python set has no order of its own; the only loop
    over it returns at the first member found in the location, so its
    result does not depend on the order chosen here. *)
Definition COUNTRY_SET : list string :=
  ["afghanistan"; "albania"; "algeria"; "andorra"; "angola";
   "antigua and barbuda"; "argentina"; "armenia"; "australia"; "austria";
   "azerbaijan"; "bahrain"; "bangladesh"; "barbados"; "belarus"; "belgium";
   "belize"; "benin"; "bhutan"; "bolivia"; "bosnia and herzegovina";
   "botswana"; "brazil"; "brunei"; "bulgaria"; "burkina faso"; "burundi";
   "cabo verde"; "cambodia"; "cameroon"; "canada";
   "central african republic"; "chad"; "chile"; "china"; "colombia";
   "comoros"; "congo, democratic republic of the";
   "congo, republic of the"; "costa rica"; "croatia"; "cuba"; "cyprus";
   "czech republic"; "côte d’ivoire"; "denmark"; "djibouti"; "dominica";
   "dominican republic"; "east timor (timor-leste)"; "ecuador"; "egypt";
   "el salvador"; "equatorial guinea"; "eritrea"; "estonia"; "eswatini";
   "ethiopia"; "fiji"; "finland"; "france"; "gabon"; "georgia"; "germany";
   "ghana"; "greece"; "grenada"; "guatemala"; "guinea"; "guinea-bissau";
   "guyana"; "haiti"; "honduras"; "hungary"; "iceland"; "india";
   "indonesia"; "iran"; "iraq"; "ireland"; "israel"; "italy"; "jamaica";
   "japan"; "jordan"; "kazakhstan"; "kenya"; "kiribati"; "korea, north";
   "korea, south"; "kosovo"; "kuwait"; "kyrgyzstan"; "laos"; "latvia";
   "lebanon"; "lesotho"; "liberia"; "libya"; "liechtenstein"; "lithuania";
   "luxembourg"; "madagascar"; "malawi"; "malaysia"; "maldives"; "mali";
   "malta"; "marshall islands"; "mauritania"; "mauritius"; "mexico";
   "micronesia, federated states of"; "moldova"; "monaco"; "mongolia";
   "montenegro"; "morocco"; "mozambique"; "myanmar (burma)"; "namibia";
   "nauru"; "nepal"; "netherlands"; "new zealand"; "nicaragua"; "niger";
   "nigeria"; "north macedonia"; "norway"; "oman"; "pakistan"; "palau";
   "panama"; "papua new guinea"; "paraguay"; "peru"; "philippines";
   "poland"; "portugal"; "qatar"; "romania"; "russia"; "rwanda";
   "saint kitts and nevis"; "saint lucia";
   "saint vincent and the grenadines"; "samoa"; "san marino";
   "sao tome and principe"; "saudi arabia"; "senegal"; "serbia";
   "seychelles"; "sierra leone"; "singapore"; "slovakia"; "slovenia";
   "solomon islands"; "somalia"; "south africa"; "spain"; "sri lanka";
   "sudan"; "sudan, south"; "suriname"; "sweden"; "switzerland"; "syria";
   "taiwan"; "tajikistan"; "tanzania"; "thailand"; "the bahamas";
   "the gambia"; "togo"; "tonga"; "trinidad and tobago"; "tunisia";
   "turkey"; "turkmenistan"; "tuvalu"; "uganda"; "ukraine";
   "united arab emirates"; "united kingdom"; "uruguay"; "uzbekistan";
   "vanuatu"; "vatican city"; "venezuela"; "vietnam"; "yemen"; "zambia";
   "zimbabwe"].

(** ** The consolidation: [src/post_extraction/post.py]

    A data frame is the list of its rows, in order; after the projection
    of [process_master_df] every row has the five canonical columns.
    The positional label of a row is its index in the list, which is
    what the frame has after each [reset_index(drop=True)].  Which
    columns a frame has is modelled at that projection only, where the
    source selects columns by name. *)

(** A value of a data frame cell: a string, a missing value ([NaN], or
    [None] from a JSON [null]) or a number.  Nested JSON values are not
    modelled. *)
Inductive cell :=
| CStr (s : string)
| CNa
| CNum (z : Z).

Global Instance cell_eq_dec : EqDecision cell.
Proof. solve_decision. Defined.

(** A row of [master_df] as [get_job_df] builds it: the company tag and
    the keys of the parsed JSON object.  A column exists in the frame
    when some row has the key. *)
Record record := {
  company : string;
  fields : gmap string cell
}.

(** A row after the projection to the five canonical columns, in the
    column order of the frame. *)
Record row := {
  company_name : string;
  job_title : cell;
  location : cell;
  job_id : cell;
  job_link : cell
}.

Global Instance row_eq_dec : EqDecision row.
Proof. solve_decision. Defined.

Definition set_job_link (v : cell) (r : row) : row :=
  {| company_name := company_name r; job_title := job_title r;
     location := location r; job_id := job_id r; job_link := v |}.

Definition set_location (v : cell) (r : row) : row :=
  {| company_name := company_name r; job_title := job_title r;
     location := v; job_id := job_id r; job_link := job_link r |}.

(** [for x in l: st = f(st, x)], where [f] may raise *)
Fixpoint fold_result {S B : Type} (f : S → B → result S) (st : S) (l : list B)
  : result S :=
  match l with
  | [] => Return st
  | x :: l' => st' ← f st x; fold_result f st' l'
  end.

(** [pd.isna] *)
Definition isna (c : cell) : bool :=
  match c with
  | CNa => true
  | _ => false
  end.

Definition has_column (master_df : list record) (col : string) : bool :=
  existsb (λ r, bool_decide (is_Some (fields r !! col))) master_df.

Definition select (r : record) : row :=
  {| company_name := company r;
     job_title := default CNa (fields r !! "Job Title");
     location := default CNa (fields r !! "Job Location");
     job_id := default CNa (fields r !! "Job ID");
     job_link := default CNa (fields r !! "Job Link") |}.

(** [master_df[["company", "Job Title", "Job Location", "Job ID",
    "Job Link"]]], with the renaming of the columns: a column that no
    row has raises [KeyError]. *)
Definition select_columns (master_df : list record) : result (list row) :=
  match
    filter (λ col, negb (has_column master_df col))
           ["Job Title"; "Job Location"; "Job ID"; "Job Link"]
  with
  | [] => Return (map select master_df)
  | col :: _ => Throw (KeyError col)
  end.

(** [drop_duplicates()]: a row equal to an earlier one is removed. *)
Fixpoint drop_duplicates_from (seen l : list row) : list row :=
  match l with
  | [] => []
  | r :: l' =>
      if decide (r ∈ seen) then drop_duplicates_from seen l'
      else r :: drop_duplicates_from (r :: seen) l'
  end.

Definition drop_duplicates (l : list row) : list row :=
  drop_duplicates_from [] l.

(** [df.drop(labels)] on a frame whose labels are its positions *)
Definition drop_labels (labels : list nat) (df : list row) : list row :=
  (filter (λ ir, ir.1 ∉ labels) (enumerate df)).*2.

(** The body of the loop of [process_master_df] over
    [self.master_df.iterrows()], on the state [(master_df, row_to_del)].
    A missing link cannot occur here: those rows are gone. *)
Definition repair_row (st : list row * list nat) (idx_r : nat * row)
  : result (list row * list nat) :=
  let '(master_df, row_to_del) := st in
  let '(idx, r) := idx_r in
  match job_link r with
  | CStr link =>
      if negb (str_in "http" link) then
        match LINK_PREPEND !! company_name r with
        | Some prefix =>
            Return (alter (set_job_link (CStr (prefix +:+ link))) idx master_df,
                    row_to_del)
        | None => Return (master_df, row_to_del ++ [idx])
        end
      else Return st
  | CNa => Return st
  | CNum _ => Throw TypeError
  end.

(** [post_extraction_cleaner.process_master_df] *)
Definition process_master_df (master_df : list record) : result (list row) :=
  selected ← select_columns master_df;
  let master_df :=
    drop_duplicates (filter (λ r, negb (isna (job_link r))) selected) in
  st ← fold_result repair_row (master_df, []) (enumerate master_df);
  Return (drop_labels st.2 st.1).

(** [job_title.str.contains('technician', case=False, na=False)] *)
Definition is_technician (r : row) : bool :=
  match job_title r with
  | CStr title => str_in "technician" (str_lower title)
  | _ => false
  end.

(** [post_extraction_cleaner.remove_old_n_irrelevant_roles] *)
Definition remove_old_n_irrelevant_roles (master_df : list row)
    (job_database_df : option (list row)) : list row :=
  let master_df := filter (λ r, negb (is_technician r)) master_df in
  match job_database_df with
  | Some db => filter (λ r, job_link r ∉ job_link <$> db) master_df
  | None => master_df
  end.

(** [row["location"].lower()] *)
Definition location_lower (r : row) : result string :=
  match location r with
  | CStr s => Return (str_lower s)
  | _ => Throw AttributeError
  end.

(** The loop of [location_check_helper] over the countries still to try. *)
Fixpoint location_check_loop (countries : list string) (r : row)
    (location_mask : list bool) : result (list bool) :=
  match countries with
  | [] => Return location_mask
  | country :: rest =>
      loc ← location_lower r;
      if str_in country loc
      then Return (but_last location_mask ++ [false])
      else location_check_loop rest r location_mask
  end.

(** [post_extraction_cleaner.location_check_helper] *)
Definition location_check_helper (r : row) (location_mask : list bool)
  : result (list bool) :=
  location_check_loop COUNTRY_SET r location_mask.

(** [df[mask]] for a list of booleans as long as the frame *)
Definition boolean_mask (mask : list bool) (df : list row) : list row :=
  omap (λ br : bool * row, if br.1 then Some br.2 else None) (zip mask df).

(** [post_extraction_cleaner.drop_non_us_jobs] *)
Definition drop_non_us_jobs (master_df : list row) : result (list row) :=
  location_mask ←
    fold_result (λ location_mask r,
                   location_check_helper r (location_mask ++ [true]))
                [] master_df;
  Return (boolean_mask location_mask master_df).

(** The inner loop of [clean_location_field] over the keywords. *)
Fixpoint keyword_loop (keywords : list string) (r : row) (change : bool)
  : result bool :=
  match keywords with
  | [] => Return change
  | keyword :: rest =>
      loc ← location_lower r;
      keyword_loop rest r (if str_in keyword loc then false else change)
  end.

(** The body of the loop of [clean_location_field]:
    [self.master_df.iloc[ix, 2] = ""] blanks the location, the third
    column. *)
Definition clean_row (master_df : list row) (ix_r : nat * row)
  : result (list row) :=
  keyword_loop UNITED_STATES_LIST ix_r.2 true ≫= λ change : bool,
  if change then Return (alter (set_location (CStr "")) ix_r.1 master_df)
  else Return master_df.

(** [post_extraction_cleaner.clean_location_field] *)
Definition clean_location_field (master_df : list row) : result (list row) :=
  fold_result clean_row master_df (enumerate master_df).

(** [post_extraction_cleaner.save_files]: the job database that is
    written back. *)
Definition save_files (master_df : list row)
    (job_database_df : option (list row)) : list row :=
  match job_database_df with
  | Some db => db ++ master_df
  | None => master_df
  end.

(** [post_extraction_cleaner.initiate_post_process], after [get_job_df]
    has built [master_df] from the fragments: the run's output and the
    job database written back.  [job_database_df] is [None] when no
    database file exists. *)
Definition initiate_post_process (master_df : list record)
    (job_database_df : option (list row)) : result (list row * list row) :=
  master_df ← process_master_df master_df;
  let master_df := remove_old_n_irrelevant_roles master_df job_database_df in
  master_df ← drop_non_us_jobs master_df;
  master_df ← clean_location_field master_df;
  Return (master_df, save_files master_df job_database_df).


(** *** The consolidation steps in the words of the specification *)

(** A recognized non-target country name occurs in the location,
    compared in lower case. *)
Definition names_country (r : row) : bool :=
  match location r with
  | CStr s => existsb (λ country, str_in country (str_lower s)) COUNTRY_SET
  | _ => false
  end.

(** A United-States keyword occurs in the location, compared in lower
    case. *)
Definition names_united_states (r : row) : bool :=
  match location r with
  | CStr s => existsb (λ keyword, str_in keyword (str_lower s)) UNITED_STATES_LIST
  | _ => false
  end.




(** *** Bookkeeping of the link-repair loop *)



(** ** Concrete inputs used in the examples *)

Definition empty_world : world :=
  {| out_entries := ∅; out_files := ∅; processed := []; model_calls := [] |}.

Definition echo_tokenizer (prompt : string) : result string := Return prompt.

(** A model that answers every prompt with an empty list. *)
Definition fixed_model (k : nat) (input_ids : string) : result string :=
  Return "### Response:
[]".

(** A model whose first invocation times out. *)
Definition failing_model (k : nat) (input_ids : string) : result string :=
  match k with
  | O => Throw (External "model timeout")
  | S _ => fixed_model k input_ids
  end.


(** One company with a flat directory of two pages. *)
Definition two_pages : folder :=
  [("meta", [("page0.txt", File "<a href=/jobs/1>");
             ("page1.txt", File "<a href=/jobs/2>")])].

(** A page of a known company without its anchor token. *)
Definition page_without_anchor : folder :=
  [("meta", [("page0.txt", File "<html>maintenance</html>")])].

(** A company that has no entry in [EXTRACTOR_CHECK]. *)
Definition unknown_company : folder :=
  [("acme", [("page0.txt", File "<a href=/jobs/1>")])].



Definition parsed (company : string) (title location id link : string)
  : record :=
  {| company := company;
     fields := list_to_map
       [("Job Title", CStr title); ("Job Location", CStr location);
        ("Job ID", CStr id); ("Job Link", CStr link)] |}.



(** A record whose parsed object has no location key. *)
Definition without_location : list record :=
  [parsed "acme" "Engineer" "Austin, USA" "1" "https://acme.example/jobs/1";
   {| company := "acme";
      fields := list_to_map
        [("Job Title", CStr "Analyst"); ("Job ID", CStr "2");
         ("Job Link", CStr "https://acme.example/jobs/2")] |}].
(** * Properties *)

(** One step of a computation in [result] or in [M], unfolded. *)
Ltac result_step :=
  unfold mbind, result_bind.
Tactic Notation "result_step" "in" hyp(H) :=
  unfold mbind, result_bind in H.
Ltac M_step :=
  unfold mbind, M_bind, lift, raise, mret, M_ret, gets, modify,
    log_processed, log_model_call, folder_exists_or_mk, save_response_as_txt.

(** ** Text operations *)

Section PyTextFacts.
Context {A : Type} `{EqDecision A}.
Implicit Types (p s sub sep cur : list A).

Lemma startswith_prefix p s : startswith p s = true ↔ p `prefix_of` s.
Proof.
  revert s. induction p as [|a p IH]; intros s; simpl.
  - split; [intros _; apply prefix_nil | done].
  - destruct s as [|b s].
    + split; [done | intros Hp; by apply prefix_nil_not in Hp].
    + case_decide as Hab.
      * subst b. rewrite IH. split; [apply prefix_cons | apply prefix_cons_inv_2].
      * split; [done | intros Hp; by apply prefix_cons_inv_1 in Hp].
Qed.

Lemma startswith_nil_r p : p ≠ [] → startswith p [] = false.
Proof. by destruct p. Qed.

Lemma contains_drop sub s :
  contains sub s = true ↔ ∃ i, startswith sub (drop i s) = true.
Proof.
  induction s as [|c s IH]; simpl.
  - rewrite orb_false_r. split; [by exists 0 | intros [i Hi]; by rewrite drop_nil in Hi].
  - rewrite orb_true_iff, IH. split.
    + intros [Hs | [i Hi]]; [by exists 0 | by exists (S i)].
    + intros [[|i] Hi]; [by left | right; by exists i].
Qed.

Lemma elem_of_occurrences_from sub pos s o :
  sub ≠ [] →
  o ∈ occurrences_from sub pos s ↔
  ∃ i, o = pos + i ∧ i < length s ∧ startswith sub (drop i s) = true.
Proof.
  intros Hsub. revert pos. induction s as [|c s IH]; intros pos; simpl.
  - rewrite startswith_nil_r by done. simpl. split; [by intros ?%elem_of_nil|].
    intros (i & _ & Hi & _). lia.
  - rewrite elem_of_app, IH. split.
    + intros [Ho | (i & -> & Hi & Hs)].
      * destruct (startswith sub (c :: s)) eqn:Hs; [|by apply elem_of_nil in Ho].
        apply list_elem_of_singleton in Ho as ->. exists 0. split_and!; [lia | lia | done].
      * exists (S i). split_and!; [lia | lia | done].
    + intros ([|i] & -> & Hi & Hs).
      * left. simpl in Hs. rewrite Hs. rewrite Nat.add_0_r. apply list_elem_of_singleton. done.
      * right. exists i. split_and!; [lia | lia | done].
Qed.

(** An offset is in [occurrences] exactly when the text sliced there
    has the anchor as a prefix. *)
Lemma elem_of_occurrences sub s o :
  sub ≠ [] →
  o ∈ occurrences sub s ↔ o < length s ∧ sub `prefix_of` drop o s.
Proof.
  intros Hsub. unfold occurrences. rewrite elem_of_occurrences_from by done.
  setoid_rewrite startswith_prefix. split.
  - intros (i & -> & ? & ?). done.
  - intros [? ?]. by exists o.
Qed.

Lemma contains_occurrences sub s :
  sub ≠ [] → contains sub s = false ↔ occurrences sub s = [].
Proof.
  intros Hsub. split.
  - intros Hc. destruct (occurrences sub s) as [|o l] eqn:Ho; [done|].
    assert (o ∈ occurrences sub s) as Hin by (rewrite Ho; left).
    apply elem_of_occurrences_from in Hin as (i & _ & _ & Hs); [|done].
    assert (contains sub s = true) by (apply contains_drop; eauto). congruence.
  - intros Ho. destruct (contains sub s) eqn:Hc; [|done].
    apply contains_drop in Hc as [i Hi].
    assert (i < length s).
    { destruct (decide (i < length s)); [done|].
      rewrite drop_ge, startswith_nil_r in Hi by (done || lia). done. }
    assert (0 + i ∈ occurrences sub s) as Hin
      by (apply elem_of_occurrences_from; eauto).
    rewrite Ho in Hin. by apply elem_of_nil in Hin.
Qed.

Lemma split_scan_not_nil sep skip cur s : split_scan sep skip cur s ≠ [].
Proof.
  revert skip cur. induction s as [|c s IH]; intros skip cur; simpl; [done|].
  destruct skip; [|apply IH]. destruct (startswith sep (c :: s)); [done | apply IH].
Qed.

Lemma but_last_cons {B : Type} (x : B) (l : list B) :
  l ≠ [] → but_last (x :: l) = x :: but_last l.
Proof.
  destruct l as [|y l]; [done|]. intros _. unfold but_last. simpl.
  by rewrite Nat.sub_0_r.
Qed.

Lemma but_last_snoc {B : Type} (l : list B) (x : B) : but_last (l ++ [x]) = l.
Proof.
  unfold but_last. rewrite length_app. simpl.
  replace (length l + 1 - 1) with (length l) by lia. by rewrite take_app_length.
Qed.

(** The loop of [find_substring] over the pieces computes the offsets at
    which the scan of [split] found the separator. *)
Lemma find_loop_scan sep s skip cur acc off pos :
  sep ≠ [] →
  off + length cur = pos + skip →
  (foldl (find_step sep) (acc, off) (but_last (split_scan sep skip cur s))).1
  = acc ++ scan_positions sep skip pos s.
Proof.
  intros Hsep. revert skip cur acc off pos.
  induction s as [|c s IH]; intros skip cur acc off pos Hinv; simpl.
  - by rewrite app_nil_r.
  - destruct skip as [|k].
    + destruct (startswith sep (c :: s)) eqn:Hs.
      * rewrite but_last_cons by apply split_scan_not_nil. simpl.
        rewrite (IH _ _ _ _ (S pos)).
        -- rewrite length_reverse, <- app_assoc. simpl.
           by replace (length cur + off) with pos by lia.
        -- simpl. destruct sep; [done|]. simpl. rewrite length_reverse. lia.
      * apply IH. simpl. lia.
    + apply IH. lia.
Qed.

(** [find_substring] returns the offsets of the scan. *)
Lemma find_substring_scan sep s :
  sep ≠ [] → find_substring sep s = Some (scan_positions sep 0 0 s).
Proof.
  intros Hsep. unfold find_substring, py_split.
  destruct sep as [|a sep]; [done|]. simpl.
  by rewrite (find_loop_scan _ _ _ _ _ _ 0).
Qed.

(** The offsets of the scan are true offsets, in increasing order. *)
Lemma scan_positions_sublist sep skip pos s :
  scan_positions sep skip pos s `sublist_of` occurrences_from sep pos s.
Proof.
  revert skip pos. induction s as [|c s IH]; intros skip pos; simpl.
  - apply sublist_nil_l.
  - destruct skip as [|k].
    + destruct (startswith sep (c :: s)); simpl.
      * apply sublist_skip, IH.
      * apply IH.
    + apply sublist_inserts_l, IH.
Qed.

(** Every offset [find_substring] computes is a true offset: the text
    sliced there has the anchor as a prefix; and the offsets come in the
    order of the true ones. *)
Lemma find_substring_sound sep s l :
  find_substring sep s = Some l →
  l `sublist_of` occurrences sep s ∧ ∀ o, o ∈ l → sep `prefix_of` drop o s.
Proof.
  intros Hl. assert (sep ≠ []) as Hsep by (by destruct sep).
  rewrite find_substring_scan in Hl by done. injection Hl as <-.
  split; [apply scan_positions_sublist|].
  intros o Ho. eapply elem_of_sublist in Ho; [|apply scan_positions_sublist].
  by apply elem_of_occurrences in Ho as [_ ?].
Qed.

(** When no two true offsets are closer than the length of the anchor,
    the scan finds every one of them. *)
Lemma scan_positions_complete sep skip pos s :
  sep ≠ [] →
  (∀ i, i < skip → startswith sep (drop i s) = false) →
  (∀ i j, i < j → startswith sep (drop i s) = true →
          startswith sep (drop j s) = true → (i + length sep ≤ j)%nat) →
  scan_positions sep skip pos s = occurrences_from sep pos s.
Proof.
  intros Hsep. revert skip pos.
  induction s as [|c s IH]; intros skip pos Hskip Hfar; simpl.
  - by rewrite startswith_nil_r.
  - assert (∀ i j, i < j → startswith sep (drop i s) = true →
                   startswith sep (drop j s) = true → (i + length sep ≤ j)%nat) as Hfar'.
    { intros i j Hij Hi Hj. specialize (Hfar (S i) (S j)). simpl in Hfar.
      specialize (Hfar ltac:(lia) Hi Hj). lia. }
    destruct skip as [|k].
    + destruct (startswith sep (c :: s)) eqn:Hs; simpl.
      * f_equal. apply IH; [|done]. intros i Hi.
        destruct (startswith sep (drop i s)) eqn:Hsi; [|done].
        specialize (Hfar 0 (S i) ltac:(lia) Hs Hsi). lia.
      * apply IH; [|done]. intros i Hi. lia.
    + pose proof (Hskip 0 ltac:(lia)) as H0. simpl in H0. rewrite H0. simpl.
      apply IH; [|done].
      intros i Hi. apply (Hskip (S i)). lia.
Qed.

Lemma find_substring_complete sep s :
  sep ≠ [] →
  (∀ i j, i < j → sep `prefix_of` drop i s → sep `prefix_of` drop j s →
          (i + length sep ≤ j)%nat) →
  find_substring sep s = Some (occurrences sep s).
Proof.
  intros Hsep Hfar. rewrite find_substring_scan by done. f_equal.
  apply scan_positions_complete; [done | intros; lia |].
  intros i j Hij Hi%startswith_prefix Hj%startswith_prefix. by apply Hfar.
Qed.

End PyTextFacts.

(** ** The state-and-exception monad *)

Section MonadFacts.
Context {B : Type}.
Implicit Types (f g : B → M unit) (l : list B) (w : world).

Lemma for_each_app f l1 l2 w :
  for_each f (l1 ++ l2) w = (for_each f l1 ;; for_each f l2) w.
Proof.
  revert w. induction l1 as [|x l1 IH]; intros w; simpl.
  - done.
  - unfold mbind, M_bind in *. destruct (f x w) as [[] w'|e w']; [apply IH | done].
Qed.

Lemma for_each_ext f g l w :
  (∀ x w', x ∈ l → f x w' = g x w') → for_each f l w = for_each g l w.
Proof.
  revert w. induction l as [|x l IH]; intros w Hfg; simpl; [done|].
  unfold mbind, M_bind. rewrite Hfg by left.
  destruct (g x w) as [[] w'|e w']; [|done].
  apply IH. intros y w'' Hy. apply Hfg. by right.
Qed.

Lemma for_each_singleton f x w : for_each f [x] w = f x w.
Proof.
  simpl. unfold mbind, M_bind, mret, M_ret.
  by destruct (f x w) as [[] w'|e w'].
Qed.

Lemma for_each_map {C : Type} (h : C → B) f (l : list C) w :
  for_each f (map h l) w = for_each (λ x, f (h x)) l w.
Proof.
  revert w. induction l as [|x l IH]; intros w; simpl; [done|].
  unfold mbind, M_bind. destruct (f (h x) w) as [[] w'|e w']; [apply IH | done].
Qed.

Lemma for_each_concat {C : Type} (h : C → list B) f (l : list C) w :
  for_each (λ x, for_each f (h x)) l w = for_each f (concat (map h l)) w.
Proof.
  revert w. induction l as [|x l IH]; intros w; simpl; [done|].
  rewrite for_each_app. unfold mbind, M_bind.
  destruct (for_each f (h x) w) as [[] w'|e w']; [apply IH | done].
Qed.

Lemma for_each_filter (P : B → Prop) `{∀ x, Decision (P x)} f l w :
  for_each (λ x, if decide (P x) then f x else mret ()) l w
  = for_each f (filter P l) w.
Proof.
  revert w. induction l as [|x l IH]; intros w; simpl; [done|].
  rewrite filter_cons. destruct (decide (P x)); simpl.
  - unfold mbind, M_bind. destruct (f x w) as [[] w'|e w']; [apply IH | done].
  - unfold mbind, M_bind, mret, M_ret. apply IH.
Qed.

End MonadFacts.

Lemma assoc_is_Some {B : Type} (name : string) (l : list (string * B)) :
  name ∈ l.*1 → is_Some (assoc name l).
Proof.
  induction l as [|[k v] l IH]; simpl; [by intros ?%elem_of_nil|].
  intros Hin. case_decide; [by eexists|].
  apply IH. apply elem_of_cons in Hin as [->|]; done.
Qed.


Lemma elem_of_sort (x : string) (l : list string) : x ∈ sort l ↔ x ∈ l.
Proof. unfold sort. by rewrite merge_sort_Permutation. Qed.

(** ** The batch driver *)

Section ExtractorFacts.
Context {tokens : Type}.
Variable tokenizer : string → result tokens.
Variable make_predictions : nat → tokens → result string.
Variable split_folder_path : folder.

Local Abbreviation call := (call_make_predictions tokenizer make_predictions split_folder_path).
Local Abbreviation produce := (produce_predicts tokenizer make_predictions split_folder_path).
Local Abbreviation work := (worklist split_folder_path).

Local Abbreviation call1 := (call_artifact tokenizer make_predictions split_folder_path).

Lemma produce_entry_artifacts company entry w :
  produce_entry tokenizer make_predictions split_folder_path company entry w
  = for_each call1 (entry_artifacts company entry) w.
Proof.
  destruct entry as [data_software [content|children]]; unfold entry_artifacts; simpl.
  - unfold mbind, M_bind, mret, M_ret, call1. simpl.
    by destruct (call company "" data_software w) as [[] w'|e w'].
  - by rewrite for_each_map.
Qed.

(** The driver runs [call_make_predictions] on the work list, in order. *)
Lemma produce_predicts_worklist w :
  produce w = for_each call1 (work (out_entries w)) w.
Proof.
  unfold produce_predicts, worklist.
  unfold mbind at 1, M_bind at 1, gets.
  rewrite <- for_each_concat, <- for_each_filter.
  apply for_each_ext. intros company w' Hin. rewrite elem_of_sort in Hin.
  case_decide; [|done]. unfold company_artifacts.
  destruct (assoc_is_Some _ _ Hin) as [entries ->].
  rewrite <- for_each_concat. apply for_each_ext. intros entry w'' _.
  apply produce_entry_artifacts.
Qed.


Lemma quiet_refl a w : quiet a w w.
Proof. split; [done|]. exists []. by rewrite app_nil_r. Qed.

Lemma quiet_trans a w1 w2 w3 : quiet a w1 w2 → quiet a w2 w3 → quiet a w1 w3.
Proof.
  intros [Hp1 (c1 & Hc1 & Hf1)] [Hp2 (c2 & Hc2 & Hf2)]. split; [congruence|].
  exists (c1 ++ c2). rewrite Hc2, Hc1, app_assoc. split; [done|].
  by apply Forall_app.
Qed.

Lemma for_each_quiet {B : Type} a (body : B → M unit) (l : list B) w :
  (∀ x w', quiet a w' (world_of (body x w'))) →
  quiet a w (world_of (for_each body l w)).
Proof.
  intros Hbody. revert w. induction l as [|x l IH]; intros w; simpl.
  - apply quiet_refl.
  - unfold mbind, M_bind. specialize (Hbody x w).
    destruct (body x w) as [[] w'|e w']; simpl in *; [|done].
    eapply quiet_trans; [done | apply IH].
Qed.

Lemma predict_window_quiet company data_software html_file html_content ix_pos w :
  quiet (company, data_software, html_file) w
    (world_of (predict_window tokenizer make_predictions company data_software
                 html_file html_content ix_pos w)).
Proof.
  destruct ix_pos as [ix pos]. unfold predict_window.
  generalize (return_prompt (window html_content pos)). intros input_prompt.
  generalize ("extracted_" +:+ str_drop_last4 html_file +:+ "_part_"
                +:+ str_of_nat ix +:+ ".txt"). intros name.
  generalize (Z.of_nat (String.length input_prompt) <? 100000)%Z. intros small.
  M_step.
  destruct (tokenizer input_prompt) as [input_ids|e]; [|apply quiet_refl].
  destruct small; [|apply quiet_refl].
  destruct (make_predictions _ input_ids) as [pred_response|e].
  - split; [done|]. eexists [_]. split; [done|]. by apply Forall_singleton.
  - split; [done|]. eexists [_]. split; [done|]. by apply Forall_singleton.
Qed.

(** A call of [call_make_predictions] logs its artifact once, and
    every invocation of the model it makes is for that artifact. *)
Lemma call_logs a w :
  logs_of_call a w (world_of (call1 a w)).
Proof.
  destruct a as [[company data_software] html_file].
  unfold call_artifact, call_make_predictions, logs_of_call. simpl.
  unfold mbind at 1, M_bind at 1, log_processed, modify.
  set (w1 := {| out_entries := _ |}).
  assert (∀ o : outcome unit, quiet (company, data_software, html_file) w1 (world_of o) →
    processed (world_of o) = processed w ++ [(company, data_software, html_file)] ∧
    ∃ calls, model_calls (world_of o) = model_calls w ++ calls ∧
             Forall (λ x, x.1 = (company, data_software, html_file)) calls) as Hq.
  { intros o [Hp Hc]. done. }
  apply Hq. clear Hq.
  M_step.
  destruct (read_html _ _ _ _) as [html_content|e]; simpl; [|apply quiet_refl].
  destruct (match EXTRACTOR_CHECK !! company with Some _ => _ | None => _ end);
    simpl; [|apply quiet_refl].
  destruct (EXTRACTOR_CHECK_item company) as [anchor|e]; simpl; [|apply quiet_refl].
  destruct (find_substring _ _) as [important_pos|]; simpl; [|apply quiet_refl].
  apply for_each_quiet. intros. apply predict_window_quiet.
Qed.

(** A run of the calls over a list of artifacts: it ends normally after
    all of them, or it ends with the exception of the first call that
    raises, and no artifact after that one is touched. *)
Lemma for_each_call_run l w :
  match for_each call1 l w with
  | Ok _ w' =>
      processed w' = processed w ++ l ∧
      ∃ calls, model_calls w' = model_calls w ++ calls ∧
               Forall (λ x, x.1 ∈ l) calls
  | Raise e w' =>
      ∃ l1 a l2 w1,
        l = l1 ++ a :: l2 ∧
        processed w' = processed w ++ l1 ++ [a] ∧
        call1 a w1 = Raise e w' ∧
        ∃ calls, model_calls w' = model_calls w ++ calls ∧
                 Forall (λ x, x.1 ∈ l1 ++ [a]) calls
  end.
Proof.
  revert w. induction l as [|a l IH]; intros w; simpl.
  - split; [by rewrite app_nil_r|]. exists []. by rewrite app_nil_r.
  - unfold mbind, M_bind. pose proof (call_logs a w) as [Hp (ca & Hca & Hfa)].
    destruct (call1 a w) as [[] w1|e w1] eqn:Hcall; simpl in *.
    + specialize (IH w1). destruct (for_each call1 l w1) as [u w'|e w'].
      * destruct IH as [Hp' (cl & Hcl & Hfl)]. split.
        { rewrite Hp', Hp, <- app_assoc. done. }
        exists (ca ++ cl). rewrite Hcl, Hca, app_assoc. split; [done|].
        apply Forall_app. split.
        -- eapply Forall_impl; [done|]. intros x ->. left.
        -- eapply Forall_impl; [done|]. intros x ?. by right.
      * destruct IH as (l1 & b & l2 & w2 & -> & Hp' & Hb & cl & Hcl & Hfl).
        exists (a :: l1), b, l2, w2. split_and!; [done | | done |].
        { rewrite Hp', Hp, <- !app_assoc. done. }
        exists (ca ++ cl). rewrite Hcl, Hca, app_assoc. split; [done|].
        apply Forall_app. split.
        -- eapply Forall_impl; [done|]. intros x ->. left.
        -- eapply Forall_impl; [done|]. intros x ?. by right.
    + exists [], a, l, w. split_and!; [done | done | done |].
      exists ca. split; [done|]. eapply Forall_impl; [done|].
      intros x ->. simpl. left.
Qed.





Lemma call_Ok_anchor a w w' :
  call1 a w = Ok () w' → is_Some (EXTRACTOR_CHECK !! a.1.1).
Proof.
  destruct a as [[company data_software] html_file].
  unfold call_artifact, call_make_predictions. simpl.
  M_step.
  destruct (read_html _ _ _ _) as [html_content|e]; [|done].
  unfold EXTRACTOR_CHECK_item.
  destruct (EXTRACTOR_CHECK !! company) as [anchor|]; [by eexists | done].
Qed.

Lemma for_each_Ok_inv {B : Type} (body : B → M unit) (l : list B) w w' x :
  for_each body l w = Ok () w' → x ∈ l → ∃ w1 w2, body x w1 = Ok () w2.
Proof.
  revert w. induction l as [|y l IH]; intros w Hrun Hx; [by apply elem_of_nil in Hx|].
  simpl in Hrun. unfold mbind, M_bind in Hrun.
  destruct (body y w) as [[] w1|e w1] eqn:Hy; [|done].
  apply elem_of_cons in Hx as [->|Hx]; [eauto | by eapply IH].
Qed.

(** C8.  For a company with an anchor token in [EXTRACTOR_CHECK] and an
    artifact whose content does not contain the token,
    [call_make_predictions] returns normally and does nothing beyond
    being called: the model is not invoked, no fragment is written and
    no entry is created under the output root. *)
Theorem call_make_predictions_without_anchor
    company anchor data_software html_file html_content w :
  EXTRACTOR_CHECK !! company = Some anchor →
  read_html split_folder_path company data_software html_file
    = Return html_content →
  str_in anchor html_content = false →
  call_make_predictions tokenizer make_predictions split_folder_path
    company data_software html_file w
  = Ok () {| out_entries := out_entries w;
             out_files := out_files w;
             processed := processed w ++ [(company, data_software, html_file)];
             model_calls := model_calls w |}.
Proof.
  intros Hanchor Hread Hin. unfold call_make_predictions.
  M_step.
  by rewrite Hread, Hanchor, Hin.
Qed.

(** C9.  For a company without an entry in [EXTRACTOR_CHECK],
    [call_make_predictions] raises [KeyError] on every artifact it can
    read, whatever the content; and a run of the driver whose work list
    holds such an artifact ends with an exception. *)
Theorem call_make_predictions_unknown_company
    company data_software html_file html_content w :
  EXTRACTOR_CHECK !! company = None →
  read_html split_folder_path company data_software html_file
    = Return html_content →
  call_make_predictions tokenizer make_predictions split_folder_path
    company data_software html_file w
  = Raise (KeyError company)
          {| out_entries := out_entries w;
             out_files := out_files w;
             processed := processed w ++ [(company, data_software, html_file)];
             model_calls := model_calls w |}
  ∧ ∀ w0, (company, data_software, html_file)
            ∈ worklist split_folder_path (out_entries w0) →
          ∃ e w', produce_predicts tokenizer make_predictions
                    split_folder_path w0
                  = Raise e w'.
Proof.
  intros Hnone Hread. split.
  - unfold call_make_predictions.
    M_step.
    rewrite Hread, Hnone. unfold EXTRACTOR_CHECK_item. by rewrite Hnone.
  - intros w0 Hin. rewrite produce_predicts_worklist.
    destruct (for_each _ _ w0) as [[] w'|e w'] eqn:Hrun; [|eauto].
    destruct (for_each_Ok_inv _ _ _ _ _ Hrun Hin) as (w1 & w2 & Hcall).
    apply call_Ok_anchor in Hcall as [anchor Hanchor]. simpl in Hanchor. congruence.
Qed.

(** C1, as the code has it.  The driver has no handler around
    [call_make_predictions]: a run ends normally after the whole work
    list, or it ends with the exception of the first call that raises,
    having called exactly the artifacts up to and including that one. *)
Theorem produce_predicts_stops_at_first_failure w :
  match produce_predicts tokenizer make_predictions split_folder_path w with
  | Ok _ w' =>
      processed w' = processed w ++ worklist split_folder_path (out_entries w)
  | Raise e w' =>
      ∃ l1 a l2 w1,
        worklist split_folder_path (out_entries w) = l1 ++ a :: l2 ∧
        processed w' = processed w ++ l1 ++ [a] ∧
        call_artifact tokenizer make_predictions split_folder_path a w1
        = Raise e w'
  end.
Proof.
  rewrite produce_predicts_worklist.
  pose proof (for_each_call_run (work (out_entries w)) w) as Hrun.
  destruct (for_each _ _ w) as [u w'|e w'].
  - by destruct Hrun as [? _].
  - destruct Hrun as (l1 & a & l2 & w1 & ? & ? & ? & _). eauto 10.
Qed.


End ExtractorFacts.

(** ** Pagination *)

Section ScraperFacts.
Variable load : nat → string → option string.

Lemma scrape_pages_visited base_url page_identifier save_folder_path multiplier b l :
  visited (foldl (scrape_page load base_url page_identifier save_folder_path
                    multiplier) b l)
  = visited b ++ map (λ n, base_url_ext base_url page_identifier n multiplier) l.
Proof.
  revert b. induction l as [|n l IH]; intros b; simpl.
  - by rewrite app_nil_r.
  - rewrite IH. unfold scrape_page.
    destruct (load _ _); simpl; by rewrite <- app_assoc.
Qed.

(** C3, as the code has it.  The URL of page [n] keeps the pagination
    identifier and writes the page number after it: every occurrence of
    the identifier in the template is replaced by the identifier
    followed by [n+1] when the multiplier is 1, and by [n*multiplier]
    when it is greater than 1.  A page that fails to load is skipped and
    does not change the URLs of the later pages. *)
Theorem paginated_url base_url page_identifier num_pages save_folder_path
    multiplier (n : nat) :
  (Z.of_nat n < num_pages)%Z →
  let pages := scrape_link_manu_wi_chromium load base_url page_identifier
                 num_pages save_folder_path multiplier in
  (multiplier = 1%Z →
   visited pages !! n
   = Some (str_replace page_identifier
             (page_identifier +:+ str_of_Z (Z.of_nat n + 1)) base_url)) ∧
  ((1 < multiplier)%Z →
   visited pages !! n
   = Some (str_replace page_identifier
             (page_identifier +:+ str_of_Z (Z.of_nat n * multiplier)) base_url)).
Proof.
  intros Hn pages.
  assert (visited pages !! n
          = Some (base_url_ext base_url page_identifier n multiplier)) as Hv.
  { unfold pages, scrape_link_manu_wi_chromium. rewrite scrape_pages_visited.
    simpl. rewrite list_lookup_fmap, lookup_seq_lt by lia. done. }
  rewrite Hv. unfold base_url_ext, page_number. split.
  - intros ->. done.
  - intros Hm. apply Z.ltb_lt in Hm. by rewrite Hm.
Qed.

End ScraperFacts.

(** ** Consolidation *)

Lemma location_check_loop_text countries r s mask :
  location r = CStr s →
  location_check_loop countries r (mask ++ [true])
  = Return (mask ++ [negb (existsb (λ c, str_in c (str_lower s)) countries)]).
Proof.
  intros Hs. induction countries as [|c countries IH]; [done|].
  cbn [location_check_loop existsb]. unfold location_lower. rewrite Hs.
  result_step. destruct (str_in c (str_lower s)); [|apply IH].
  by rewrite but_last_snoc.
Qed.

Lemma location_check_loop_throw c countries r mask :
  (∀ s, location r ≠ CStr s) →
  location_check_loop (c :: countries) r mask = Throw AttributeError.
Proof.
  intros Hr. cbn [location_check_loop]. unfold location_lower.
  destruct (location r) as [s| |z] eqn:Hl; [by destruct (Hr s) | done | done].
Qed.

Lemma keyword_loop_text keywords r s change :
  location r = CStr s →
  keyword_loop keywords r change
  = Return (change && negb (existsb (λ k, str_in k (str_lower s)) keywords)).
Proof.
  intros Hs. revert change. induction keywords as [|k keywords IH]; intros change.
  - simpl. by rewrite andb_true_r.
  - cbn [keyword_loop existsb]. unfold location_lower. rewrite Hs.
    result_step. rewrite IH.
    by destruct (str_in k (str_lower s)), change.
Qed.

Lemma keyword_loop_throw k keywords r change :
  (∀ s, location r ≠ CStr s) →
  keyword_loop (k :: keywords) r change = Throw AttributeError.
Proof.
  intros Hr. cbn [keyword_loop]. unfold location_lower.
  destruct (location r) as [s| |z] eqn:Hl; [by destruct (Hr s) | done | done].
Qed.

Lemma location_check_helper_text r s mask :
  location r = CStr s →
  location_check_helper r (mask ++ [true])
  = Return (mask ++ [negb (names_country r)]).
Proof.
  intros Hs. unfold location_check_helper, names_country. rewrite Hs.
  by apply location_check_loop_text.
Qed.

Lemma location_check_helper_throw r mask :
  (∀ s, location r ≠ CStr s) →
  location_check_helper r mask = Throw AttributeError.
Proof. intros Hr. by apply location_check_loop_throw. Qed.



Lemma location_mask_throw rows acc :
  (∃ r, r ∈ rows ∧ ∀ s, location r ≠ CStr s) →
  fold_result (λ location_mask r,
                 location_check_helper r (location_mask ++ [true]))
              acc rows
  = Throw AttributeError.
Proof.
  revert acc. induction rows as [|r rows IH]; intros acc (bad & Hin & Hbad).
  - by apply elem_of_nil in Hin.
  - cbn [fold_result]. destruct (location r) as [s| |z] eqn:Hs.
    + rewrite (location_check_helper_text _ _ _ Hs). result_step.
      apply IH. apply elem_of_cons in Hin as [->|Hin]; [by destruct (Hbad s) | eauto].
    + rewrite location_check_helper_throw; [done | congruence].
    + rewrite location_check_helper_throw; [done | congruence].
Qed.


Lemma drop_non_us_jobs_throw rows :
  (∃ r, r ∈ rows ∧ ∀ s, location r ≠ CStr s) →
  drop_non_us_jobs rows = Throw AttributeError.
Proof.
  intros Hbad. unfold drop_non_us_jobs. by rewrite location_mask_throw.
Qed.



Lemma clean_row_text df ix r s :
  location r = CStr s →
  clean_row df (ix, r)
  = Return (if names_united_states r then df
            else alter (set_location (CStr "")) ix df).
Proof.
  intros Hs. unfold clean_row. cbn [fst snd].
  rewrite (keyword_loop_text _ _ _ _ Hs). result_step.
  unfold names_united_states. rewrite Hs. cbn [andb].
  by destruct (existsb _ _).
Qed.

Lemma clean_row_throw df ix r :
  (∀ s, location r ≠ CStr s) → clean_row df (ix, r) = Throw AttributeError.
Proof.
  intros Hr. unfold clean_row. cbn [fst snd].
  unfold UNITED_STATES_LIST. by rewrite keyword_loop_throw.
Qed.

Lemma enumerate_from_cons {B : Type} (k : nat) (x : B) (l : list B) :
  imap (λ i y, (k + i, y)) (x :: l) = (k, x) :: imap (λ i y, (S k + i, y)) l.
Proof.
  rewrite imap_cons. f_equal; [f_equal; lia|].
  apply imap_ext. intros i y _. simpl. f_equal. lia.
Qed.


Lemma clean_rows_throw rows df k :
  (∃ r, r ∈ rows ∧ ∀ s, location r ≠ CStr s) →
  fold_result clean_row df (imap (λ i r, (k + i, r)) rows)
  = Throw AttributeError.
Proof.
  revert df k. induction rows as [|r rows IH]; intros df k (bad & Hin & Hbad).
  - by apply elem_of_nil in Hin.
  - rewrite enumerate_from_cons. cbn [fold_result].
    destruct (location r) as [s| |z] eqn:Hs.
    + rewrite (clean_row_text _ _ _ _ Hs). result_step.
      apply IH. apply elem_of_cons in Hin as [->|Hin]; [by destruct (Hbad s) | eauto].
    + rewrite clean_row_throw; [done | congruence].
    + rewrite clean_row_throw; [done | congruence].
Qed.


Lemma clean_location_field_throw rows :
  (∃ r, r ∈ rows ∧ ∀ s, location r ≠ CStr s) →
  clean_location_field rows = Throw AttributeError.
Proof. intros Hbad. by apply (clean_rows_throw rows rows 0). Qed.



(** C10.  A record whose location is not a string makes each geography
    pass raise [AttributeError], and with it the whole consolidation
    when such a record is left after the link and history steps. *)
Theorem location_must_be_text rows :
  (∃ r, r ∈ rows ∧ ∀ s, location r ≠ CStr s) →
  drop_non_us_jobs rows = Throw AttributeError ∧
  clean_location_field rows = Throw AttributeError ∧
  ∀ master_df job_database_df processed_df,
    process_master_df master_df = Return processed_df →
    remove_old_n_irrelevant_roles processed_df job_database_df = rows →
    initiate_post_process master_df job_database_df = Throw AttributeError.
Proof.
  intros Hbad. split_and!.
  - by apply drop_non_us_jobs_throw.
  - by apply clean_location_field_throw.
  - intros master_df db p Hp Hrows. unfold initiate_post_process.
    rewrite Hp. result_step. rewrite Hrows.
    by rewrite drop_non_us_jobs_throw.
Qed.

(** *** Link repair *)






(** *** Idempotence *)





(** ** The claims on concrete inputs *)

(** C2.  [find_substring] with the anchor token of [meta] on a text in
    which two occurrences of the token overlap: the token starts at
    offsets 0 and 5, and the scan, which resumes after a match, returns
    offset 0 only. *)
Theorem find_substring_misses_overlap :
  EXTRACTOR_CHECK !! "meta" = Some "/jobs/" ∧
  occurrences (chars "/jobs/") (chars "/jobs/jobs/") = [0; 5] ∧
  find_substring (chars "/jobs/") (chars "/jobs/jobs/") = Some [0].
Proof. split_and!; vm_compute; reflexivity. Qed.

(** C1, as stated, fails: the first invocation of the model times out
    on the first of two pages, the run ends with that exception and the
    second page is never passed to [call_make_predictions]. *)
Lemma failure_aborts_batch :
  (∃ w, produce_predicts echo_tokenizer failing_model two_pages empty_world
        = Raise (External "model timeout") w) ∧
  ¬ (∀ a, a ∈ worklist two_pages ∅ →
          a ∈ processed (world_of (produce_predicts echo_tokenizer failing_model
                                     two_pages empty_world))).
Proof.
  assert (processed (world_of (produce_predicts echo_tokenizer failing_model
                                 two_pages empty_world))
          = [("meta", "", "page0.txt")]) as Hlog by (vm_compute; reflexivity).
  assert (worklist two_pages ∅
          = [("meta", "", "page0.txt"); ("meta", "", "page1.txt")]) as Hwork
    by (vm_compute; reflexivity).
  split.
  - eexists. vm_compute. reflexivity.
  - intros Hall. specialize (Hall ("meta", "", "page1.txt")).
    rewrite Hlog, Hwork in Hall.
    assert (("meta", "", "page1.txt") ∈ [("meta", "", "page0.txt")]) as Hin
      by (apply Hall; right; left).
    apply list_elem_of_singleton in Hin. discriminate Hin.
Qed.

(** C3, as stated, fails: the page number does not take the place of
    the pagination identifier, it is written after it. *)
Lemma paginated_url_keeps_identifier :
  visited (scrape_link_manu_wi_chromium (λ _ _, Some "<html></html>")
             "https://x.example/jobs?page=" "page=" 3 "out/" 1) !! 0
  ≠ Some (str_replace "page=" (str_of_Z (0 + 1)) "https://x.example/jobs?page=").
Proof. vm_compute. intros [=]. Qed.

Lemma paginated_url_witness :
  (Z.of_nat 2 < 3)%Z ∧
  visited (scrape_link_manu_wi_chromium (λ _ _, Some "<html></html>")
             "https://x.example/jobs?start=" "start=" 3 "out/" 10) !! 2
  = Some "https://x.example/jobs?start=20".
Proof.
  split; [lia|].
  destruct (paginated_url (λ _ _, Some "<html></html>")
              "https://x.example/jobs?start=" "start=" 3 "out/" 10 2
              ltac:(lia)) as [_ Hurl].
  rewrite Hurl by lia. vm_compute. reflexivity.
Defined.


Lemma call_make_predictions_without_anchor_witness :
  EXTRACTOR_CHECK !! "meta" = Some "/jobs/" ∧
  read_html page_without_anchor "meta" "" "page0.txt"
    = Return "<html>maintenance</html>" ∧
  str_in "/jobs/" "<html>maintenance</html>" = false ∧
  call_make_predictions echo_tokenizer fixed_model page_without_anchor
    "meta" "" "page0.txt" empty_world
  = Ok () {| out_entries := ∅; out_files := ∅;
             processed := [("meta", "", "page0.txt")]; model_calls := [] |}.
Proof.
  assert (EXTRACTOR_CHECK !! "meta" = Some "/jobs/") as Hanchor
    by (vm_compute; reflexivity).
  assert (read_html page_without_anchor "meta" "" "page0.txt"
          = Return "<html>maintenance</html>") as Hread
    by (vm_compute; reflexivity).
  assert (str_in "/jobs/" "<html>maintenance</html>" = false) as Hin
    by (vm_compute; reflexivity).
  split_and!; [done | done | done |].
  apply (call_make_predictions_without_anchor echo_tokenizer fixed_model
           page_without_anchor "meta" "/jobs/" "" "page0.txt"
           "<html>maintenance</html>" empty_world Hanchor Hread Hin).
Defined.

Lemma call_make_predictions_unknown_company_witness :
  EXTRACTOR_CHECK !! "acme" = None ∧
  read_html unknown_company "acme" "" "page0.txt" = Return "<a href=/jobs/1>" ∧
  call_make_predictions echo_tokenizer fixed_model unknown_company
    "acme" "" "page0.txt" empty_world
  = Raise (KeyError "acme")
          {| out_entries := ∅; out_files := ∅;
             processed := [("acme", "", "page0.txt")]; model_calls := [] |} ∧
  ∃ e w', produce_predicts echo_tokenizer fixed_model unknown_company empty_world
          = Raise e w'.
Proof.
  assert (EXTRACTOR_CHECK !! "acme" = None) as Hnone
    by (vm_compute; reflexivity).
  assert (read_html unknown_company "acme" "" "page0.txt"
          = Return "<a href=/jobs/1>") as Hread
    by (vm_compute; reflexivity).
  destruct (call_make_predictions_unknown_company echo_tokenizer fixed_model
              unknown_company "acme" "" "page0.txt" "<a href=/jobs/1>"
              empty_world Hnone Hread) as [Hcall Hrun].
  split_and!; [done | done | done |].
  apply Hrun. vm_compute. left.
Defined.


Lemma location_must_be_text_witness :
  (∃ p, process_master_df without_location = Return p ∧
        ∃ r, r ∈ remove_old_n_irrelevant_roles p None ∧
             ∀ s, location r ≠ CStr s) ∧
  initiate_post_process without_location None = Throw AttributeError.
Proof.
  assert (∃ p, process_master_df without_location = Return p ∧
               ∃ r, r ∈ remove_old_n_irrelevant_roles p None ∧
                    ∀ s, location r ≠ CStr s) as Hbad.
  { eexists. split; [vm_compute; reflexivity|].
    exists {| company_name := "acme"; job_title := CStr "Analyst";
              location := CNa; job_id := CStr "2";
              job_link := CStr "https://acme.example/jobs/2" |}.
    split; [vm_compute; right; left | done]. }
  split; [done|]. destruct Hbad as (p & Hp & Hr).
  destruct (location_must_be_text _ Hr) as (_ & _ & Hrun).
  by apply (Hrun without_location None p).
Defined.


